(** * use-timeline: the timeline engine of [src/index.ts]

    A shallow embedding of the undo/redo state container behind the
    [useTimeline] hook, and the properties of it that the specification
    states.

    Conventions of the embedding.
    - JavaScript numbers that the engine handles (the cursor, the targets
      of undo/redo/jump, [maxTimelineSize], array lengths) are integers in
      the specification's data model ([index: int]); they are modelled
      as [Z].  [NaN], infinities and fractions are outside the model.
    - An array is a [list]; [Array.prototype.slice], indexed reads and
      [map] with an index are written out with their out-of-range
      behaviour.
    - The TypeScript annotations are erased at run time, so the element
      type of a timeline is the type of run-time values, an instance of
      the interface [Js.Value]: it has [undefined] (what an out-of-range
      read gives), the tests that [utils.ts] performs on a value, and
      application of a value to arguments.  A call is the call of a
      callable that returns; a callable that raises is outside the
      model.
    - Every function of the engine is pure and builds a new state, so a
      function of the source is a function here; the hook's updaters are
      the functions handed to React's [_setState]. *)

From stdpp Require Import base numbers option list strings.
From Stdlib Require Import ZArith Lia.

Local Open Scope Z_scope.

(** ** The JavaScript primitives the source relies on *)

Module Js.

(** Run-time values, as far as [index.ts] and [utils.ts] look at them. *)
Class Value (V : Type) : Type := {
  (** the value [undefined] *)
  undefined : V;
  (** [ToBoolean]: what [value && ...] and [if (value)] test *)
  truthy : V -> bool;
  (** [Object.prototype.toString.call(value)] *)
  toStringTag : V -> string;
  (** [typeof value] *)
  typeof : V -> string;
  (** [value instanceof Function] *)
  instanceofFunction : V -> bool;
  (** [value(...args)] *)
  call : V -> list V -> V
}.

(** How [slice] reads one of its two bounds against the array length:
    a negative bound counts from the end, and the result is clamped to
    [0 .. len]. *)
Definition relativeIndex (len k : Z) : Z :=
  if k <? 0 then Z.max (len + k) 0 else Z.min k len.

(** [arr.slice(start, end)] *)
Definition slice {A : Type} (arr : list A) (start end_ : Z) : list A :=
  let len := Z.of_nat (length arr) in
  let k := relativeIndex len start in
  let final := relativeIndex len end_ in
  take (Z.to_nat (final - k)) (drop (Z.to_nat k) arr).

(** [arr[i]]: [undefined] when [i] is not an index of [arr]. *)
Definition get {V : Type} `{!Value V} (arr : list V) (i : Z) : V :=
  if i <? 0 then undefined else default undefined (arr !! Z.to_nat i).

End Js.

(** ** [src/utils.ts] *)

(** [isFunction(value)], read as the condition of the [if] it is used in:
    [value && (A || B || C)] is falsy when [value] is, and otherwise is the
    disjunction of the three tests. *)
Definition isFunction {V : Type} `{!Js.Value V} (value : V) : bool :=
  Js.truthy value &&
  (String.eqb (Js.toStringTag value) "[object Function]"
   || String.eqb "function" (Js.typeof value)
   || Js.instanceofFunction value).

(** ** [src/index.ts]: the data model *)

Record UndoableState (T : Type) : Type := {
  timeline : list T;
  index : Z
}.
Arguments timeline {T} _.
Arguments index {T} _.

Module TimeSlice.
(** [TimeSlice<T>]: a snapshot together with its position in the
    timeline. *)
Record t (T : Type) : Type := make {
  timeSlice : T;
  index : Z
}.
Arguments make {T} _ _.
Arguments timeSlice {T} _.
Arguments index {T} _.
End TimeSlice.

(** [Options]: the own property [maxTimelineSize] of the options object is
    absent ([None]), or present and holding [undefined] ([Some None]) or a
    number ([Some (Some n)]). *)
Record Options : Type := {
  maxTimelineSize : option (option Z)
}.

(** ** [src/index.ts]: the engine *)

Section Engine.
Context {T : Type} `{!Js.Value T}.

Definition _newState (timeline : list T) (index : Z) : UndoableState T :=
  {| timeline := timeline; index := index |}.

Definition _canUndoTo (state : UndoableState T) (to : Z) : bool :=
  (index state >? 0) && (to <? index state).

Definition _canRedoTo (state : UndoableState T) (to : Z) : bool :=
  (to <? Z.of_nat (length (timeline state))) && (to >? index state).

Definition _getPast (state : UndoableState T) : list (TimeSlice.t T) :=
  imap (fun index timeSlice => TimeSlice.make timeSlice (Z.of_nat index))
       (Js.slice (timeline state) 0 (index state)).

Definition _getFuture (state : UndoableState T) : list (TimeSlice.t T) :=
  imap (fun i timeSlice =>
          TimeSlice.make timeSlice (index state + 1 + Z.of_nat i))
       (Js.slice (timeline state) (index state + 1)
                 (Z.of_nat (length (timeline state)))).

(** [_insert(state, timeSlice, maxTimelineSize = 5)]: the third argument
    is [None] when the caller passes [undefined] or nothing, and the
    default parameter then applies. *)
Definition _insert (state : UndoableState T) (timeSlice : T)
           (maxTimelineSize : option Z) : UndoableState T :=
  let maxTimelineSize := default 5 maxTimelineSize in
  let startIndex := if index state =? maxTimelineSize then 1 else 0 in
  let past := Js.slice (timeline state) startIndex (index state + 1) in
  let newTimeline := past ++ [timeSlice] in
  let newIndex :=
    if index state =? maxTimelineSize then index state else index state + 1 in
  _newState newTimeline newIndex.

Definition _undoTo (state : UndoableState T) (to : Z) : UndoableState T :=
  if negb (_canUndoTo state to) then state
  else _newState (timeline state) to.

Definition _redoTo (state : UndoableState T) (to : Z) : UndoableState T :=
  if negb (_canRedoTo state to) then state
  else _newState (timeline state) to.

Definition _jumpTo (state : UndoableState T) (to : Z) : UndoableState T :=
  if (to <? 0) || (to >? Z.of_nat (length (timeline state)) - 1) then state
  else _newState (timeline state) to.

Definition _getCurrentTimeSlice (state : UndoableState T) : T :=
  Js.get (timeline state) (index state).

Definition _clearTimeline (state : UndoableState T) : UndoableState T :=
  let currentTimeSlice := _getCurrentTimeSlice state in
  _newState [currentTimeSlice] 0.

(** [_initState]: the local [_initialTimeSlice] starts out [undefined],
    is assigned the result of the call when the argument is a function,
    and is then assigned the argument itself, whatever the test said
    (the second assignment is not in an [else]). *)
Definition _initState (initialValue : T) : UndoableState T :=
  let _initialTimeSlice := Js.undefined in
  let _initialTimeSlice :=
    if isFunction initialValue then Js.call initialValue []
    else _initialTimeSlice in
  let _initialTimeSlice := initialValue in
  _newState [_initialTimeSlice] 0.

(** *** The hook [useTimeline] *)

Definition defaultOptions : Options :=
  {| maxTimelineSize := Some (Some 20) |}.

(** [{ ...a, ...b }] on option objects: the own properties of [b], when
    [b] is an object, override those of [a]. *)
Definition spread (a : Options) (b : option Options) : Options :=
  match b with
  | None => a
  | Some b =>
      {| maxTimelineSize :=
           match maxTimelineSize b with
           | Some v => Some v
           | None => maxTimelineSize a
           end |}
  end.

(** [const { maxTimelineSize } = { ...defaultOptions, ...options }] *)
Definition useTimeline_maxTimelineSize (options : option Options) : option Z :=
  match maxTimelineSize (spread defaultOptions options) with
  | Some v => v
  | None => None
  end.

(** The updaters that the hook's callbacks hand to [_setState]; each maps
    the stored state [s] to the next one. *)
Definition setState (options : option Options) (arg : T)
           (s : UndoableState T) : UndoableState T :=
  let maxTimelineSize := useTimeline_maxTimelineSize options in
  let timeSlice := _getCurrentTimeSlice s in
  if isFunction arg then _insert s (Js.call arg [timeSlice]) maxTimelineSize
  else _insert s arg maxTimelineSize.

Definition undo (s : UndoableState T) : UndoableState T :=
  _undoTo s (index s - 1).

Definition redo (s : UndoableState T) : UndoableState T :=
  _redoTo s (index s + 1).

Definition jumpTo (index : Z) (s : UndoableState T) : UndoableState T :=
  _jumpTo s index.

Definition clearTimeline (s : UndoableState T) : UndoableState T :=
  _clearTimeline s.

Definition canUndo (s : UndoableState T) : bool := _canUndoTo s (index s - 1).
Definition canRedo (s : UndoableState T) : bool := _canRedoTo s (index s + 1).

End Engine.

(** ** Sequences of engine operations *)

(** One call of the engine on the stored state. *)
Inductive operation (T : Type) : Type :=
| Insert (value : T) (maxTimelineSize : Z)
| UndoTo (to : Z)
| RedoTo (to : Z)
| JumpTo (to : Z)
| Clear.
Arguments Insert {T} _ _.
Arguments UndoTo {T} _.
Arguments RedoTo {T} _.
Arguments JumpTo {T} _.
Arguments Clear {T}.

Section Runs.
Context {T : Type} `{!Js.Value T}.

Definition perform (state : UndoableState T) (op : operation T) : UndoableState T :=
  match op with
  | Insert value maxTimelineSize => _insert state value (Some maxTimelineSize)
  | UndoTo to => _undoTo state to
  | RedoTo to => _redoTo state to
  | JumpTo to => _jumpTo state to
  | Clear => _clearTimeline state
  end.

(** The state after the calls [ops], made in order from [state]. *)
Definition run (state : UndoableState T) (ops : list (operation T)) : UndoableState T :=
  foldl perform state ops.

(** Invariants 1 and 2 of the data model. *)
Definition invariant (state : UndoableState T) : Prop :=
  timeline state <> [] /\ 0 <= index state < Z.of_nat (length (timeline state)).

Definition invariantb (state : UndoableState T) : bool :=
  negb (Nat.eqb (length (timeline state)) 0)
  && (0 <=? index state) && (index state <? Z.of_nat (length (timeline state))).

(** The arguments the specification's invariant claim quantifies over:
    any target, any value, a positive [maxTimelineSize]. *)
Definition positiveCap (op : operation T) : Prop :=
  match op with
  | Insert _ maxTimelineSize => 0 < maxTimelineSize
  | _ => True
  end.

(** The same, with the target of an undo not negative. *)
Definition admissible (op : operation T) : Prop :=
  match op with
  | Insert _ maxTimelineSize => 0 < maxTimelineSize
  | UndoTo to => 0 <= to
  | _ => True
  end.

End Runs.

(** ** A sample universe of values

    Primitive values and functions over them, enough to run the engine on
    concrete inputs.  A function argument that is itself a function is
    seen as [undefined] by the callee; calling a primitive gives
    [undefined] (the engine only calls what [isFunction] accepts). *)

Module Sample.

Inductive prim : Type :=
| PUndefined
| PNumber (n : Z)
| PString (s : string).

Inductive value : Type :=
| Prim (p : prim)
| Function (f : list prim -> prim).

Definition toPrim (v : value) : prim :=
  match v with
  | Prim p => p
  | Function _ => PUndefined
  end.

Definition truthy (v : value) : bool :=
  match v with
  | Prim PUndefined => false
  | Prim (PNumber n) => negb (n =? 0)
  | Prim (PString s) => negb (Nat.eqb (String.length s) 0)
  | Function _ => true
  end.

Definition toStringTag (v : value) : string :=
  match v with
  | Prim PUndefined => "[object Undefined]"
  | Prim (PNumber _) => "[object Number]"
  | Prim (PString _) => "[object String]"
  | Function _ => "[object Function]"
  end.

Definition typeof (v : value) : string :=
  match v with
  | Prim PUndefined => "undefined"
  | Prim (PNumber _) => "number"
  | Prim (PString _) => "string"
  | Function _ => "function"
  end.

Definition instanceofFunction (v : value) : bool :=
  match v with
  | Prim _ => false
  | Function _ => true
  end.

Definition call (v : value) (args : list value) : value :=
  match v with
  | Prim _ => Prim PUndefined
  | Function f => Prim (f (map toPrim args))
  end.

#[global] Instance value_js : Js.Value value := {|
  Js.undefined := Prim PUndefined;
  Js.truthy := truthy;
  Js.toStringTag := toStringTag;
  Js.typeof := typeof;
  Js.instanceofFunction := instanceofFunction;
  Js.call := call
|}.

Definition num (n : Z) : value := Prim (PNumber n).

(** [() => 1] *)
Definition one : value := Function (fun _ => PNumber 1).

(** [(n) => n + 1] on numbers *)
Definition succ : value :=
  Function (fun args =>
              match args with
              | PNumber n :: _ => PNumber (n + 1)
              | _ => PUndefined
              end).

End Sample.

(** ** What the specification says [initialize] does *)

Section Specification.
Context {T : Type} `{!Js.Value T}.

(** The specification's [initialize]: "If given a zero-argument
    callable, invoke it to produce the seed value; otherwise use the
    value directly. Produces [{ timeline: [seed], index: 0 }]." *)
Definition initialize_spec (initialValue : T) : UndoableState T :=
  let seed :=
    if isFunction initialValue then Js.call initialValue [] else initialValue in
  {| timeline := [seed]; index := 0 |}.

(** The caller gives the hook no [maxTimelineSize]: no options object,
    or one without that property. *)
Definition noMaxTimelineSize (options : option Options) : Prop :=
  match options with
  | None => True
  | Some o => maxTimelineSize o = None
  end.

End Specification.

(** ** What the hook returns, and the calls a component makes *)

Module TimelineInstance.
(** The data of [TimelineInstance<T>]; its callbacks are the updaters
    [setState], [undo], [redo], [jumpTo] and [clearTimeline]. *)
Record t (T : Type) : Type := make {
  state : T;
  internal : UndoableState T;
  pastTimeline : list (TimeSlice.t T);
  futureTimeline : list (TimeSlice.t T);
  canUndo : bool;
  canRedo : bool
}.
Arguments make {T} _ _ _ _ _ _.
Arguments state {T} _.
Arguments internal {T} _.
Arguments pastTimeline {T} _.
Arguments futureTimeline {T} _.
Arguments canUndo {T} _.
Arguments canRedo {T} _.
End TimelineInstance.

(** One call of a callback of the instance. *)
Inductive action (T : Type) : Type :=
| DoSetState (arg : T)
| DoUndo
| DoRedo
| DoJumpTo (index : Z)
| DoClearTimeline.
Arguments DoSetState {T} _.
Arguments DoUndo {T}.
Arguments DoRedo {T}.
Arguments DoJumpTo {T} _.
Arguments DoClearTimeline {T}.

Section Hook.
Context {T : Type} `{!Js.Value T}.

(** The object [useTimeline] returns on a render where the stored state
    is [_state]; [internal] is a copy of it. *)
Definition useTimeline_instance (_state : UndoableState T) : TimelineInstance.t T :=
  TimelineInstance.make
    (_getCurrentTimeSlice _state)
    {| timeline := timeline _state; index := index _state |}
    (_getPast _state)
    (_getFuture _state)
    (_canUndoTo _state (index _state - 1))
    (_canRedoTo _state (index _state + 1)).

(** The stored state after a callback has run: React applies the updater
    to the stored state. *)
Definition dispatch (options : option Options) (s : UndoableState T)
           (a : action T) : UndoableState T :=
  match a with
  | DoSetState arg => setState options arg s
  | DoUndo => undo s
  | DoRedo => redo s
  | DoJumpTo index => jumpTo index s
  | DoClearTimeline => clearTimeline s
  end.

(** The stored state of a component that mounts with
    [useTimeline(initialValue, options)] and then makes the calls
    [actions], in order. *)
Definition useTimeline_state (initialValue : T) (options : option Options)
           (actions : list (action T)) : UndoableState T :=
  foldl (dispatch options) (_initState initialValue) actions.

(** The same when the component does not pass the same options on every
    render: the hook reads its options again on each render, so each call
    comes with the options of the render that made the callback. *)
Definition useTimeline_renders (initialValue : T)
           (calls : list (option Options * action T)) : UndoableState T :=
  foldl (fun s call => dispatch call.1 s call.2) (_initState initialValue) calls.

(** The cap [_insert] works with under [options]: the hook's merged
    [maxTimelineSize], or the default parameter of [_insert] when that is
    [undefined]. *)
Definition effectiveMaxTimelineSize (options : option Options) : Z :=
  default 5 (useTimeline_maxTimelineSize options).

(** What [setState] inserts: the argument, or what the argument returns
    on the current snapshot when it is a function. *)
Definition inserted (arg : T) (s : UndoableState T) : T :=
  if isFunction arg then Js.call arg [_getCurrentTimeSlice s] else arg.

(** The snapshots of a list of time slices. *)
Definition timeSlices (l : list (TimeSlice.t T)) : list T :=
  TimeSlice.timeSlice <$> l.

End Hook.

(** The operations that only move the cursor. *)
Definition cursorMove {T : Type} (op : operation T) : Prop :=
  match op with
  | UndoTo _ | RedoTo _ | JumpTo _ => True
  | Insert _ _ | Clear => False
  end.

(** ** Proof automation *)

(** Splits the goal on the comparisons it tests and leaves linear
    arithmetic. *)
Ltac split_tests :=
  rewrite ?Z.gtb_ltb;
  repeat match goal with
         | |- context [?a <? ?b] => destruct (Z.ltb_spec a b)
         | |- context [?a =? ?b] => destruct (Z.eqb_spec a b)
         | |- context [?a <=? ?b] => destruct (Z.leb_spec a b)
         end;
  simpl; try reflexivity; try lia.

(** ** Running the engine on the specification's example scenario *)

Section Scenario.
Import Sample.

Example scenario_initialize :
  _initState (num 0) = {| timeline := [num 0]; index := 0 |}.
Proof. reflexivity. Qed.

Example scenario_insert :
  run (_initState (num 0)) [Insert (num 1) 5; Insert (num 2) 5]
  = {| timeline := [num 0; num 1; num 2]; index := 2 |}.
Proof. reflexivity. Qed.

Example scenario_undo_insert :
  run (_initState (num 0))
      [Insert (num 1) 5; Insert (num 2) 5; UndoTo 1; Insert (num 9) 5]
  = {| timeline := [num 0; num 1; num 9]; index := 2 |}.
Proof. reflexivity. Qed.

Example scenario_clear :
  run (_initState (num 0))
      [Insert (num 1) 5; Insert (num 2) 5; UndoTo 1; Insert (num 9) 5; Clear]
  = {| timeline := [num 9]; index := 0 |}.
Proof. reflexivity. Qed.

Example scenario_setState_updater :
  setState None succ {| timeline := [num 0; num 1]; index := 1 |}
  = {| timeline := [num 0; num 1; num 2]; index := 2 |}.
Proof. reflexivity. Qed.

Example scenario_slice_negative :
  Js.slice [num 0; num 1; num 2; num 3] (-3) (-1) = [num 1; num 2].
Proof. reflexivity. Qed.

Example scenario_future :
  _getFuture {| timeline := [num 0; num 1; num 2]; index := 0 |}
  = [TimeSlice.make (num 1) 1; TimeSlice.make (num 2) 2].
Proof. reflexivity. Qed.

End Scenario.

(** ** Lemmas on the JavaScript primitives *)

Section SliceLemmas.
Context {A : Type}.
Implicit Types (arr : list A) (a b : Z).

Lemma relativeIndex_in_range len k :
  0 <= k <= len -> Js.relativeIndex len k = k.
Proof. intros Hk. unfold Js.relativeIndex. split_tests. Qed.

(** Within bounds, [slice] is [drop] then [take]. *)
Lemma slice_in_range arr a b :
  0 <= a <= Z.of_nat (length arr) ->
  0 <= b <= Z.of_nat (length arr) ->
  Js.slice arr a b = take (Z.to_nat (b - a)) (drop (Z.to_nat a) arr).
Proof.
  intros Ha Hb. unfold Js.slice.
  rewrite !relativeIndex_in_range by assumption. reflexivity.
Qed.

Lemma length_slice_in_range arr a b :
  0 <= a <= b -> b <= Z.of_nat (length arr) ->
  length (Js.slice arr a b) = Z.to_nat (b - a).
Proof.
  intros Hab Hb. rewrite slice_in_range by lia.
  rewrite length_take, length_drop. lia.
Qed.

(** A slice that starts at or after its end is empty. *)
Lemma slice_empty arr a b :
  0 <= b <= a -> Js.slice arr a b = [].
Proof.
  intros Hab. unfold Js.slice.
  set (len := Z.of_nat (length arr)).
  assert (Js.relativeIndex len b - Js.relativeIndex len a <= 0) as Hle.
  { unfold Js.relativeIndex. split_tests. }
  replace (Z.to_nat _) with 0%nat by lia. reflexivity.
Qed.

(** A slice from the front is a prefix. *)
Lemma slice_from_0 arr b :
  0 <= b <= Z.of_nat (length arr) -> Js.slice arr 0 b = take (Z.to_nat b) arr.
Proof.
  intros Hb. rewrite slice_in_range by lia.
  rewrite Z.sub_0_r. reflexivity.
Qed.

(** A slice from position 1 is what is left of a prefix without its
    first element. *)
Lemma slice_from_1 arr b :
  1 <= b <= Z.of_nat (length arr) ->
  Js.slice arr 1 b = drop 1 (take (Z.to_nat b) arr).
Proof.
  intros Hb. rewrite slice_in_range by lia.
  change (Z.to_nat 1) with 1%nat.
  rewrite take_drop_commute.
  replace (1 + Z.to_nat (b - 1))%nat with (Z.to_nat b) by lia.
  reflexivity.
Qed.

End SliceLemmas.

Section GetLemmas.
Context {T : Type} `{!Js.Value T}.

Lemma get_lookup (arr : list T) (i : Z) (x : T) :
  0 <= i -> arr !! Z.to_nat i = Some x -> Js.get arr i = x.
Proof.
  intros Hi Hx. unfold Js.get.
  destruct (Z.ltb_spec i 0); [lia|]. rewrite Hx. reflexivity.
Qed.

Lemma get_last (arr : list T) (x : T) :
  Js.get (arr ++ [x]) (Z.of_nat (length arr)) = x.
Proof.
  apply get_lookup; [lia|].
  rewrite Nat2Z.id. apply list_lookup_middle. reflexivity.
Qed.

End GetLemmas.

(** ** The cursor operations: undo, redo, jump *)

Section Cursor.
Context {T : Type} `{!Js.Value T}.
Implicit Types (state : UndoableState T) (to : Z).

Lemma _canUndoTo_true state to :
  _canUndoTo state to = true <-> index state > 0 /\ to < index state.
Proof. unfold _canUndoTo. split_tests. Qed.

Lemma _canRedoTo_true state to :
  _canRedoTo state to = true
  <-> to < Z.of_nat (length (timeline state)) /\ to > index state.
Proof. unfold _canRedoTo. split_tests. Qed.

Lemma _undoTo_valid state to :
  index state > 0 -> to < index state ->
  _undoTo state to = {| timeline := timeline state; index := to |}.
Proof.
  intros Hi Hto. unfold _undoTo.
  replace (_canUndoTo state to) with true; [reflexivity|].
  symmetry. apply _canUndoTo_true. auto.
Qed.

Lemma _undoTo_invalid state to :
  ~ (index state > 0 /\ to < index state) -> _undoTo state to = state.
Proof.
  intros Hno. unfold _undoTo.
  destruct (_canUndoTo state to) eqn:Hcan; [|reflexivity].
  apply _canUndoTo_true in Hcan. contradiction.
Qed.

Lemma _redoTo_valid state to :
  to < Z.of_nat (length (timeline state)) -> to > index state ->
  _redoTo state to = {| timeline := timeline state; index := to |}.
Proof.
  intros Hlen Hto. unfold _redoTo.
  replace (_canRedoTo state to) with true; [reflexivity|].
  symmetry. apply _canRedoTo_true. auto.
Qed.

Lemma _redoTo_invalid state to :
  ~ (to < Z.of_nat (length (timeline state)) /\ to > index state) ->
  _redoTo state to = state.
Proof.
  intros Hno. unfold _redoTo.
  destruct (_canRedoTo state to) eqn:Hcan; [|reflexivity].
  apply _canRedoTo_true in Hcan. contradiction.
Qed.

Lemma _jumpTo_valid state to :
  0 <= to <= Z.of_nat (length (timeline state)) - 1 ->
  _jumpTo state to = {| timeline := timeline state; index := to |}.
Proof. intros Hto. unfold _jumpTo. split_tests. Qed.

Lemma _jumpTo_invalid state to :
  to < 0 \/ to > Z.of_nat (length (timeline state)) - 1 ->
  _jumpTo state to = state.
Proof. intros Hto. unfold _jumpTo. split_tests. Qed.

(** C5. For every state and every target [to], [_undoTo] is defined (it
    is a total function: no call fails), it returns the state with the
    same timeline and the cursor at [to] when [index > 0] and
    [to < index], and it returns the input state in every other case; so
    its result differs from its input exactly when [index > 0] and
    [to < index]. *)
Theorem undoTo_moves_cursor_or_is_noop state to :
  (index state > 0 /\ to < index state ->
     _undoTo state to = {| timeline := timeline state; index := to |})
  /\ (~ (index state > 0 /\ to < index state) -> _undoTo state to = state)
  /\ (_undoTo state to <> state <-> index state > 0 /\ to < index state).
Proof.
  split; [|split].
  - intros [Hi Hto]. apply _undoTo_valid; assumption.
  - apply _undoTo_invalid.
  - split.
    + intros Hmoved.
      destruct (_canUndoTo state to) eqn:Hcan.
      * apply _canUndoTo_true. assumption.
      * exfalso. apply Hmoved. apply _undoTo_invalid.
        intros Hyes. apply _canUndoTo_true in Hyes. congruence.
    + intros [Hi Hto] Hsame.
      rewrite _undoTo_valid in Hsame by assumption.
      apply (f_equal index) in Hsame. simpl in Hsame. lia.
Qed.

(** C6. For a state that satisfies the invariants, jumping to [-1] or to
    [length(timeline)] returns the state unchanged, and jumping to any
    [k] with [0 <= k < length(timeline)] returns the same timeline with
    the cursor at [k], whether [k] is before or after the cursor. *)
Theorem jumpTo_bounds state :
  invariant state ->
  _jumpTo state (-1) = state
  /\ _jumpTo state (Z.of_nat (length (timeline state))) = state
  /\ forall k, 0 <= k < Z.of_nat (length (timeline state)) ->
       _jumpTo state k = {| timeline := timeline state; index := k |}.
Proof.
  intros _. split; [|split].
  - apply _jumpTo_invalid. lia.
  - apply _jumpTo_invalid. lia.
  - intros k Hk. apply _jumpTo_valid. lia.
Qed.

(** C8. For a timeline of length at least 2 with the cursor on its last
    element, undoing to [index - 1] moves the cursor one step back, and
    redoing from there to one more than the new cursor gives back the
    original state, so the current value is the original one. *)
Theorem undo_redo_round_trip state :
  (2 <= length (timeline state))%nat ->
  index state = Z.of_nat (length (timeline state)) - 1 ->
  let result := _undoTo state (index state - 1) in
  index result = index state - 1
  /\ _redoTo result (index result + 1) = state
  /\ _getCurrentTimeSlice (_redoTo result (index result + 1))
     = _getCurrentTimeSlice state.
Proof.
  intros Hlen Hlast result.
  assert (result = {| timeline := timeline state; index := index state - 1 |})
    as Hresult by (apply _undoTo_valid; lia).
  assert (_redoTo result (index result + 1) = state) as Hback.
  { rewrite Hresult. simpl. rewrite _redoTo_valid by (simpl; lia).
    simpl. destruct state as [tl i]. simpl. f_equal. lia. }
  split; [rewrite Hresult; reflexivity|].
  split; [assumption|]. rewrite Hback. reflexivity.
Qed.

(** C10. For a state that satisfies the invariants and a target strictly
    between the cursor and the length of the timeline, [_redoTo] and
    [_jumpTo] return the same state: the timeline with the cursor at the
    target. *)
Theorem redoTo_is_jumpTo state to :
  invariant state ->
  index state < to < Z.of_nat (length (timeline state)) ->
  _redoTo state to = _jumpTo state to
  /\ _jumpTo state to = {| timeline := timeline state; index := to |}.
Proof.
  intros [_ Hindex] Hto.
  rewrite _redoTo_valid by lia. rewrite _jumpTo_valid by lia.
  split; reflexivity.
Qed.

End Cursor.

(** ** Insertion and clearing *)

Section Insertion.
Context {T : Type} `{!Js.Value T}.
Implicit Types (state : UndoableState T) (timeSlice : T).

(** What [_insert] keeps of the old timeline: the entries up to the
    cursor, without the first one when the cursor is at the cap. *)
Lemma _insert_timeline state timeSlice maxTimelineSize :
  invariant state ->
  timeline (_insert state timeSlice maxTimelineSize)
  = drop (if index state =? default 5 maxTimelineSize then 1 else 0)
         (take (S (Z.to_nat (index state))) (timeline state))
    ++ [timeSlice].
Proof.
  intros [_ Hindex]. unfold _insert. simpl.
  replace (S (Z.to_nat (index state))) with (Z.to_nat (index state + 1)) by lia.
  destruct (index state =? default 5 maxTimelineSize).
  - rewrite slice_from_1 by lia. reflexivity.
  - rewrite slice_from_0 by lia. reflexivity.
Qed.

(** After an insertion the cursor is on the last element. *)
Lemma _insert_index_last state timeSlice maxTimelineSize :
  invariant state ->
  let state' := _insert state timeSlice maxTimelineSize in
  Z.of_nat (length (timeline state')) = index state' + 1.
Proof.
  intros Hinv state'. subst state'.
  rewrite _insert_timeline by assumption.
  destruct Hinv as [_ Hindex].
  rewrite length_app, length_drop, length_take.
  unfold _insert, _newState. cbn [index length].
  destruct (index state =? default 5 maxTimelineSize); lia.
Qed.

(** C7. For a state that satisfies the invariants, a value and a
    positive [maxTimelineSize], the state that [_insert] returns has an
    empty future, its cursor is on the last element of its timeline, that
    element is the inserted value, and the entries before it all come
    from the old timeline up to the old cursor: nothing that was beyond
    the cursor is kept. *)
Theorem insert_erases_future state timeSlice (maxTimelineSize : Z) :
  invariant state ->
  0 < maxTimelineSize ->
  let state' := _insert state timeSlice (Some maxTimelineSize) in
  _getFuture state' = []
  /\ index state' = Z.of_nat (length (timeline state')) - 1
  /\ _getCurrentTimeSlice state' = timeSlice
  /\ exists past,
       timeline state' = past ++ [timeSlice]
       /\ past `suffix_of` take (S (Z.to_nat (index state))) (timeline state).
Proof.
  intros Hinv _ state'. subst state'.
  pose proof (_insert_index_last state timeSlice (Some maxTimelineSize) Hinv)
    as Hlast.
  pose proof (_insert_timeline state timeSlice (Some maxTimelineSize) Hinv)
    as Htimeline.
  cbv zeta in Hlast.
  set (state' := _insert state timeSlice (Some maxTimelineSize)) in *.
  clearbody state'.
  split; [|split; [|split]].
  - unfold _getFuture. rewrite slice_empty; [reflexivity|lia].
  - lia.
  - unfold _getCurrentTimeSlice. rewrite Htimeline.
    rewrite Htimeline, length_app in Hlast. cbn [length] in Hlast.
    match goal with
    | |- Js.get (?past ++ _) _ = _ =>
        replace (index state') with (Z.of_nat (length past)) by lia
    end.
    apply get_last.
  - eexists. split; [exact Htimeline|]. apply suffix_drop.
Qed.

(** The current snapshot of a state that satisfies the invariants is an
    element of its timeline. *)
Lemma _getCurrentTimeSlice_lookup state :
  invariant state ->
  timeline state !! Z.to_nat (index state) = Some (_getCurrentTimeSlice state).
Proof.
  intros [_ Hindex].
  destruct (lookup_lt_is_Some_2 (timeline state) (Z.to_nat (index state)))
    as [x Hx]; [lia|].
  rewrite Hx. f_equal. symmetry.
  unfold _getCurrentTimeSlice. apply get_lookup; [lia|assumption].
Qed.

Lemma _clearTimeline_idempotent state :
  _clearTimeline (_clearTimeline state) = _clearTimeline state.
Proof. reflexivity. Qed.

(** C9. For a state that satisfies the invariants, [_clearTimeline]
    returns the one-entry timeline that holds the element of the old
    timeline at the cursor, with the cursor at 0; and clearing a cleared
    state changes nothing. *)
Theorem clear_keeps_current_and_is_idempotent state :
  invariant state ->
  (exists current,
      timeline state !! Z.to_nat (index state) = Some current
      /\ _clearTimeline state = {| timeline := [current]; index := 0 |})
  /\ _clearTimeline (_clearTimeline state) = _clearTimeline state.
Proof.
  intros Hinv. split.
  - exists (_getCurrentTimeSlice state).
    split; [apply _getCurrentTimeSlice_lookup; assumption|reflexivity].
  - apply _clearTimeline_idempotent.
Qed.

End Insertion.

(** ** The invariants along a run *)

Section Invariant.
Context {T : Type} `{!Js.Value T}.
Implicit Types (state : UndoableState T) (to : Z).

Lemma invariantb_true state : invariantb state = true <-> invariant state.
Proof.
  unfold invariantb, invariant.
  destruct (timeline state) as [|x tl]; cbn [length Nat.eqb negb andb].
  - split; [discriminate|]. intros [Hne _]. contradiction.
  - split_tests; split; try discriminate; try lia; auto.
Qed.

Lemma _initState_timeline (initialValue : T) :
  _initState initialValue = {| timeline := [initialValue]; index := 0 |}.
Proof. reflexivity. Qed.

Lemma _initState_invariant (initialValue : T) :
  invariant (_initState initialValue).
Proof. split; [discriminate|]. simpl. lia. Qed.

(** Whatever [maxTimelineSize] is, also absent, zero or negative. *)
Lemma _insert_invariant state (timeSlice : T) maxTimelineSize :
  invariant state -> invariant (_insert state timeSlice maxTimelineSize).
Proof.
  intros Hinv.
  pose proof (_insert_index_last state timeSlice maxTimelineSize Hinv) as Hlast.
  cbv zeta in Hlast. split.
  - rewrite _insert_timeline by assumption.
    intros Hnil. apply app_eq_nil in Hnil. destruct Hnil. discriminate.
  - destruct Hinv as [_ Hindex]. split; [|lia].
    unfold _insert, _newState. cbn [index].
    destruct (index state =? default 5 maxTimelineSize); lia.
Qed.

(** An undo keeps the invariants when its target is not negative. *)
Lemma _undoTo_invariant state to :
  0 <= to -> invariant state -> invariant (_undoTo state to).
Proof.
  intros Hto [Hne Hindex]. unfold _undoTo.
  destruct (_canUndoTo state to) eqn:Hcan; [|split; assumption].
  apply _canUndoTo_true in Hcan. split; [assumption|]. simpl. lia.
Qed.

Lemma _redoTo_invariant state to :
  invariant state -> invariant (_redoTo state to).
Proof.
  intros [Hne Hindex]. unfold _redoTo.
  destruct (_canRedoTo state to) eqn:Hcan; [|split; assumption].
  apply _canRedoTo_true in Hcan. split; [assumption|]. simpl. lia.
Qed.

Lemma _jumpTo_invariant state to :
  invariant state -> invariant (_jumpTo state to).
Proof.
  intros [Hne Hindex].
  destruct (Z_lt_le_dec to 0) as [Hneg|Hpos];
    [rewrite _jumpTo_invalid by lia; split; assumption|].
  destruct (Z_lt_le_dec to (Z.of_nat (length (timeline state)))) as [Hin|Hout];
    [|rewrite _jumpTo_invalid by lia; split; assumption].
  rewrite _jumpTo_valid by lia. split; [assumption|]. simpl. lia.
Qed.

(** Clearing gives a state that satisfies the invariants, from any
    state. *)
Lemma _clearTimeline_invariant state : invariant (_clearTimeline state).
Proof. split; [discriminate|]. simpl. lia. Qed.

Lemma perform_invariant state (op : operation T) :
  admissible op -> invariant state -> invariant (perform state op).
Proof.
  intros Hop Hinv. destruct op as [value cap|to|to|to|]; simpl.
  - apply _insert_invariant. assumption.
  - apply _undoTo_invariant; assumption.
  - apply _redoTo_invariant. assumption.
  - apply _jumpTo_invariant. assumption.
  - apply _clearTimeline_invariant.
Qed.

Lemma run_invariant state (ops : list (operation T)) :
  Forall admissible ops -> invariant state -> invariant (run state ops).
Proof.
  intros Hops. revert state.
  induction Hops as [|op ops Hop _ IH]; intros state Hinv; [assumption|].
  simpl. apply IH. apply perform_invariant; assumption.
Qed.

(** C1, as amended. For every sequence of the operations insert, undoTo,
    redoTo, jumpTo and clear applied to a state produced by
    [_initState], with any target for redoTo and jumpTo, a target that
    is not negative for undoTo, and any value and a positive
    [maxTimelineSize] for insert, the resulting state has a timeline that
    is not empty and a cursor with [0 <= index < length(timeline)]. *)
Theorem invariant_preserved (initialValue : T) (ops : list (operation T)) :
  Forall admissible ops ->
  invariant (run (_initState initialValue) ops).
Proof.
  intros Hops. apply run_invariant; [assumption|].
  apply _initState_invariant.
Qed.

(** The hook only undoes to [index - 1], and only when [index > 0]: each
    of its updaters keeps the invariants, whatever its argument. *)
Lemma updaters_invariant state :
  invariant state ->
  (forall options arg, invariant (setState options arg state))
  /\ invariant (undo state)
  /\ invariant (redo state)
  /\ (forall to, invariant (jumpTo to state))
  /\ invariant (clearTimeline state).
Proof.
  intros Hinv. split; [|split; [|split; [|split]]].
  - intros options arg. unfold setState.
    destruct (isFunction arg); apply _insert_invariant; assumption.
  - unfold undo, _undoTo.
    destruct (_canUndoTo state (index state - 1)) eqn:Hcan; [|assumption].
    apply _canUndoTo_true in Hcan. destruct Hinv as [Hne Hindex].
    split; [assumption|]. simpl. lia.
  - apply _redoTo_invariant. assumption.
  - intros to. apply _jumpTo_invariant. assumption.
  - apply _clearTimeline_invariant.
Qed.

End Invariant.

(** ** The cap on the timeline *)

Section Cap.
Context {T : Type} `{!Js.Value T}.

(** C3. From [_initState v0], five insertions with [maxTimelineSize = 2]
    give the states below: the timeline holds three entries from the
    second insertion on (one more than the cap of 2), and from the third
    insertion on, when the cursor equals the cap, each insertion drops
    the oldest entry, in the order of insertion. *)
Theorem insert_cap_2_overshoots (v0 v1 v2 v3 v4 v5 : T) :
  let s0 := _initState v0 in
  let s1 := _insert s0 v1 (Some 2) in
  let s2 := _insert s1 v2 (Some 2) in
  let s3 := _insert s2 v3 (Some 2) in
  let s4 := _insert s3 v4 (Some 2) in
  let s5 := _insert s4 v5 (Some 2) in
  s1 = {| timeline := [v0; v1]; index := 1 |}
  /\ s2 = {| timeline := [v0; v1; v2]; index := 2 |}
  /\ s3 = {| timeline := [v1; v2; v3]; index := 2 |}
  /\ s4 = {| timeline := [v2; v3; v4]; index := 2 |}
  /\ s5 = {| timeline := [v3; v4; v5]; index := 2 |}
  /\ (length (timeline s2) > 2)%nat.
Proof. cbv zeta. repeat split. simpl. lia. Qed.

(** Once the cursor is at the cap, on the last of [cap + 1] entries, an
    insertion keeps both: it drops the first entry and appends the
    value. *)
Lemma _insert_at_cap (state : UndoableState T) (timeSlice : T) (cap : Z) :
  invariant state ->
  index state = cap ->
  Z.of_nat (length (timeline state)) = cap + 1 ->
  let state' := _insert state timeSlice (Some cap) in
  index state' = cap
  /\ timeline state' = drop 1 (timeline state) ++ [timeSlice].
Proof.
  intros Hinv Hindex Hlen state'. subst state'. split.
  - unfold _insert, _newState. cbn [index default].
    rewrite Hindex, Z.eqb_refl. reflexivity.
  - rewrite _insert_timeline by assumption. cbn [default].
    rewrite Hindex, Z.eqb_refl.
    rewrite take_ge by lia. reflexivity.
Qed.

End Cap.

(** ** The default configuration of the hook *)

Section Configuration.
Context {T : Type} `{!Js.Value T}.

Lemma useTimeline_maxTimelineSize_default (options : option Options) :
  noMaxTimelineSize options -> useTimeline_maxTimelineSize options = Some 20.
Proof.
  unfold useTimeline_maxTimelineSize, noMaxTimelineSize.
  destruct options as [[cap]|]; simpl; [|reflexivity].
  intros ->. reflexivity.
Qed.

Lemma useTimeline_maxTimelineSize_given (cap : Z) :
  useTimeline_maxTimelineSize (Some {| maxTimelineSize := Some (Some cap) |})
  = Some cap.
Proof. reflexivity. Qed.

(** Where the default of the hook applies: when the caller gives the hook
    no options object, or one without the [maxTimelineSize] property,
    [setState] inserts exactly as [_insert] does with
    [maxTimelineSize = 20]: the value itself, or the result of the updater
    on the current snapshot. *)
Theorem setState_default_maxTimelineSize
        (options : option Options) (arg : T) (s : UndoableState T) :
  noMaxTimelineSize options ->
  useTimeline_maxTimelineSize options = Some 20
  /\ setState options arg s
     = _insert s
               (if isFunction arg then Js.call arg [_getCurrentTimeSlice s]
                else arg)
               (Some 20).
Proof.
  intros Hnone.
  pose proof (useTimeline_maxTimelineSize_default options Hnone) as Hcap.
  split; [assumption|]. unfold setState. rewrite Hcap.
  destruct (isFunction arg); reflexivity.
Qed.

(** An options object whose [maxTimelineSize] is present and [undefined]
    overrides the default of the hook, and the default parameter of
    [_insert], 5, is used. *)
Lemma setState_undefined_maxTimelineSize (arg : T) (s : UndoableState T) :
  isFunction arg = false ->
  setState (Some {| maxTimelineSize := Some None |}) arg s
  = _insert s arg (Some 5).
Proof. intros Hval. unfold setState. rewrite Hval. reflexivity. Qed.

End Configuration.

(** ** Initialisation against the specification *)

Section Initialisation.
Context {T : Type} `{!Js.Value T}.

(** On a value that is not a function the source and the specification
    agree. *)
Lemma _initState_value (initialValue : T) :
  isFunction initialValue = false ->
  _initState initialValue = initialize_spec initialValue.
Proof.
  intros Hval. unfold initialize_spec. rewrite Hval. reflexivity.
Qed.

(** On a function they agree only if the function returns itself. *)
Lemma _initState_function (initialValue : T) :
  isFunction initialValue = true ->
  _initState initialValue = initialize_spec initialValue
  <-> Js.call initialValue [] = initialValue.
Proof.
  intros Hfun. unfold initialize_spec. rewrite Hfun.
  rewrite _initState_timeline. split.
  - intros Heq. injection Heq as Heq. symmetry. assumption.
  - intros ->. reflexivity.
Qed.

End Initialisation.

(** C2. Given the function [() => 1], which [isFunction] accepts and whose
    call returns 1, [_initState] produces the timeline that holds the
    function itself, where the specification's [initialize] produces the
    timeline that holds 1. *)
Theorem initState_stores_the_function :
  isFunction Sample.one = true
  /\ Js.call Sample.one [] = Sample.num 1
  /\ _initState Sample.one = {| timeline := [Sample.one]; index := 0 |}
  /\ initialize_spec Sample.one = {| timeline := [Sample.num 1]; index := 0 |}
  /\ _initState Sample.one <> initialize_spec Sample.one.
Proof.
  repeat split. intros Heq. discriminate Heq.
Qed.

(** ** The properties on concrete inputs *)

Section Concrete.
Import Sample.

(** C1, as the specification states it, fails: after one insertion an
    undo to [-1] is accepted ([index = 1 > 0] and [-1 < 1]) and leaves
    the cursor at [-1]. *)
Lemma undoTo_negative_breaks_invariant :
  let ops := [Insert (num 1) 5; UndoTo (-1)] in
  Forall positiveCap ops
  /\ run (_initState (num 0)) ops
     = {| timeline := [num 0; num 1]; index := -1 |}
  /\ ~ invariant (run (_initState (num 0)) ops).
Proof.
  cbv zeta. split; [|split].
  - repeat constructor.
  - reflexivity.
  - intros [_ [Hlow _]]. simpl in Hlow. lia.
Qed.

Lemma invariant_preserved_witness :
  let ops :=
    [Insert (num 1) 2; Insert (num 2) 2; Insert (num 3) 2; UndoTo 0;
     RedoTo 7; JumpTo (-3); JumpTo 2; Insert one 2; Clear] in
  Forall admissible ops /\ invariant (run (_initState (num 0)) ops).
Proof.
  cbv zeta. split.
  - repeat constructor; simpl; lia.
  - apply invariant_preserved. repeat constructor; simpl; lia.
Defined.

Lemma setState_default_maxTimelineSize_witness :
  let options := Some {| maxTimelineSize := None |} in
  let s := {| timeline := [num 0; num 1]; index := 1 |} in
  noMaxTimelineSize options
  /\ useTimeline_maxTimelineSize options = Some 20
  /\ setState options succ s = _insert s (num 2) (Some 20).
Proof.
  cbv zeta. split; [reflexivity|].
  exact (setState_default_maxTimelineSize
           (Some {| maxTimelineSize := None |}) succ
           {| timeline := [num 0; num 1]; index := 1 |} eq_refl).
Defined.

Lemma jumpTo_bounds_witness :
  let s := {| timeline := [num 0; num 1; num 2]; index := 1 |} in
  invariant s
  /\ _jumpTo s (-1) = s
  /\ _jumpTo s 3 = s
  /\ forall k, 0 <= k < 3 -> _jumpTo s k = {| timeline := timeline s; index := k |}.
Proof.
  cbv zeta. split.
  - split; [discriminate|simpl; lia].
  - apply (jumpTo_bounds {| timeline := [num 0; num 1; num 2]; index := 1 |}).
    split; [discriminate|simpl; lia].
Defined.

Lemma insert_erases_future_witness :
  let s := {| timeline := [num 0; num 1; num 2]; index := 1 |} in
  let s' := _insert s (num 9) (Some 5) in
  invariant s /\ 0 < 5
  /\ _getFuture s' = []
  /\ index s' = Z.of_nat (length (timeline s')) - 1
  /\ _getCurrentTimeSlice s' = num 9
  /\ exists past,
       timeline s' = past ++ [num 9]
       /\ past `suffix_of` take (S (Z.to_nat (index s))) (timeline s).
Proof.
  cbv zeta. split; [|split].
  - split; [discriminate|simpl; lia].
  - lia.
  - apply (insert_erases_future
             {| timeline := [num 0; num 1; num 2]; index := 1 |} (num 9) 5).
    + split; [discriminate|simpl; lia].
    + lia.
Defined.

Lemma undo_redo_round_trip_witness :
  let s := {| timeline := [num 0; num 1; num 2]; index := 2 |} in
  let result := _undoTo s (index s - 1) in
  (2 <= length (timeline s))%nat
  /\ index s = Z.of_nat (length (timeline s)) - 1
  /\ index result = index s - 1
  /\ _redoTo result (index result + 1) = s
  /\ _getCurrentTimeSlice (_redoTo result (index result + 1))
     = _getCurrentTimeSlice s.
Proof.
  cbv zeta. split; [|split].
  - simpl. lia.
  - reflexivity.
  - apply (undo_redo_round_trip
             {| timeline := [num 0; num 1; num 2]; index := 2 |}).
    + simpl. lia.
    + reflexivity.
Defined.

Lemma clear_keeps_current_and_is_idempotent_witness :
  let s := {| timeline := [num 0; num 1; num 2]; index := 1 |} in
  invariant s
  /\ (exists current,
         timeline s !! Z.to_nat (index s) = Some current
         /\ _clearTimeline s = {| timeline := [current]; index := 0 |})
  /\ _clearTimeline (_clearTimeline s) = _clearTimeline s.
Proof.
  cbv zeta. split.
  - split; [discriminate|simpl; lia].
  - apply (clear_keeps_current_and_is_idempotent
             {| timeline := [num 0; num 1; num 2]; index := 1 |}).
    split; [discriminate|simpl; lia].
Defined.

Lemma redoTo_is_jumpTo_witness :
  let s := {| timeline := [num 0; num 1; num 2]; index := 0 |} in
  invariant s
  /\ index s < 2 < Z.of_nat (length (timeline s))
  /\ _redoTo s 2 = _jumpTo s 2
  /\ _jumpTo s 2 = {| timeline := timeline s; index := 2 |}.
Proof.
  cbv zeta. split; [|split].
  - split; [discriminate|simpl; lia].
  - simpl. lia.
  - apply (redoTo_is_jumpTo
             {| timeline := [num 0; num 1; num 2]; index := 0 |} 2).
    + split; [discriminate|simpl; lia].
    + simpl. lia.
Defined.

(** The cap of 2 on numbers: the third entry appears at the second
    insertion. *)
Example insert_cap_2_numbers :
  map (fun ops => timeline (run (_initState (num 0)) ops))
      [[Insert (num 1) 2];
       [Insert (num 1) 2; Insert (num 2) 2];
       [Insert (num 1) 2; Insert (num 2) 2; Insert (num 3) 2]]
  = [[num 0; num 1]; [num 0; num 1; num 2]; [num 1; num 2; num 3]].
Proof. reflexivity. Qed.

End Concrete.

(** ** The derived views: past and future *)

Section Views.
Context {T : Type} `{!Js.Value T}.
Implicit Types (state : UndoableState T) (ts : TimeSlice.t T).

Lemma timeSlices_imap (position : nat -> Z) (l : list T) :
  timeSlices (imap (fun i x => TimeSlice.make x (position i)) l) = l.
Proof.
  unfold timeSlices. rewrite fmap_imap.
  rewrite (imap_ext _ (const id)) by reflexivity.
  rewrite imap_const. apply list_fmap_id.
Qed.

Lemma _getPast_timeSlices state :
  invariant state ->
  timeSlices (_getPast state) = take (Z.to_nat (index state)) (timeline state).
Proof.
  intros [_ Hindex]. unfold _getPast.
  rewrite timeSlices_imap. apply slice_from_0. lia.
Qed.

Lemma _getFuture_timeSlices state :
  invariant state ->
  timeSlices (_getFuture state)
  = drop (S (Z.to_nat (index state))) (timeline state).
Proof.
  intros [_ Hindex]. unfold _getFuture.
  rewrite (timeSlices_imap (fun i => index state + 1 + Z.of_nat i)).
  rewrite slice_in_range by lia.
  replace (Z.to_nat (index state + 1)) with (S (Z.to_nat (index state))) by lia.
  apply take_ge. rewrite length_drop. lia.
Qed.

(** What an entry of the past is: the element of the timeline at its own
    position, which is before the cursor. *)
Lemma _getPast_lookup state (j : nat) ts :
  invariant state ->
  _getPast state !! j = Some ts ->
  TimeSlice.index ts = Z.of_nat j
  /\ Z.of_nat j < index state
  /\ timeline state !! j = Some (TimeSlice.timeSlice ts).
Proof.
  intros [_ Hindex]. unfold _getPast.
  rewrite list_lookup_imap, slice_from_0 by lia.
  intros Hts. apply fmap_Some in Hts as (x & Hx & ->).
  apply lookup_take_Some in Hx as [Hx Hj]. simpl.
  split; [reflexivity|]. split; [lia|assumption].
Qed.

(** What an entry of the future is: the element of the timeline at its
    own position, which is after the cursor. *)
Lemma _getFuture_lookup state (j : nat) ts :
  invariant state ->
  _getFuture state !! j = Some ts ->
  TimeSlice.index ts = index state + 1 + Z.of_nat j
  /\ timeline state !! Z.to_nat (TimeSlice.index ts)
     = Some (TimeSlice.timeSlice ts).
Proof.
  intros [_ Hindex]. unfold _getFuture.
  rewrite list_lookup_imap, slice_in_range by lia.
  intros Hts. apply fmap_Some in Hts as (x & Hx & ->).
  apply lookup_take_Some in Hx as [Hx _]. rewrite lookup_drop in Hx. simpl.
  split; [reflexivity|].
  replace (Z.to_nat (index state + 1 + Z.of_nat j))
    with (Z.to_nat (index state + 1) + j)%nat by lia.
  assumption.
Qed.

Lemma past_current_future_partition_lengths state :
  invariant state ->
  Z.of_nat (length (_getPast state)) = index state
  /\ Z.of_nat (length (_getFuture state))
     = Z.of_nat (length (timeline state)) - 1 - index state.
Proof.
  intros Hinv.
  pose proof (_getPast_timeSlices state Hinv) as Hpast.
  pose proof (_getFuture_timeSlices state Hinv) as Hfuture.
  destruct Hinv as [_ Hindex].
  apply (f_equal length) in Hpast, Hfuture. unfold timeSlices in Hpast, Hfuture.
  rewrite length_fmap, length_take in Hpast.
  rewrite length_fmap, length_drop in Hfuture. lia.
Qed.

(** X1. For a state that satisfies the invariants, the snapshots of the
    past, the current snapshot and the snapshots of the future, in this
    order, are the timeline; the past has [index] entries and the future
    [length(timeline) - 1 - index]. *)
Theorem past_current_future_partition state :
  invariant state ->
  timeSlices (_getPast state) ++ [_getCurrentTimeSlice state]
    ++ timeSlices (_getFuture state)
  = timeline state
  /\ Z.of_nat (length (_getPast state)) = index state
  /\ Z.of_nat (length (_getFuture state))
     = Z.of_nat (length (timeline state)) - 1 - index state.
Proof.
  intros Hinv.
  pose proof (_getPast_timeSlices state Hinv) as Hpast.
  pose proof (_getFuture_timeSlices state Hinv) as Hfuture.
  pose proof (_getCurrentTimeSlice_lookup state Hinv) as Hcurrent.
  destruct Hinv as [_ Hindex]. split; [|split].
  - rewrite Hpast, Hfuture. apply take_drop_middle. assumption.
  - apply (f_equal length) in Hpast. unfold timeSlices in Hpast.
    rewrite length_fmap, length_take in Hpast. lia.
  - apply (f_equal length) in Hfuture. unfold timeSlices in Hfuture.
    rewrite length_fmap, length_drop in Hfuture. lia.
Qed.

(** X2. For a state that satisfies the invariants, an entry of the past
    carries a position before the cursor, and undoing to that position,
    like jumping to it, keeps the timeline and makes the entry's snapshot
    the current one. *)
Theorem undoTo_past_time_slice state ts :
  invariant state ->
  ts ∈ _getPast state ->
  0 <= TimeSlice.index ts < index state
  /\ _undoTo state (TimeSlice.index ts)
     = {| timeline := timeline state; index := TimeSlice.index ts |}
  /\ _jumpTo state (TimeSlice.index ts) = _undoTo state (TimeSlice.index ts)
  /\ _getCurrentTimeSlice (_undoTo state (TimeSlice.index ts))
     = TimeSlice.timeSlice ts.
Proof.
  intros Hinv Hin. apply list_elem_of_lookup_1 in Hin as [j Hj].
  destruct (_getPast_lookup state j ts Hinv Hj) as (Hpos & Hbefore & Hx).
  destruct Hinv as [_ Hindex].
  rewrite _undoTo_valid by lia. rewrite _jumpTo_valid by lia.
  split; [lia|]. split; [reflexivity|]. split; [reflexivity|].
  unfold _getCurrentTimeSlice. simpl. apply get_lookup; [lia|].
  rewrite Hpos, Nat2Z.id. assumption.
Qed.

(** X3. For a state that satisfies the invariants, an entry of the future
    carries a position after the cursor and inside the timeline, and
    redoing to that position, like jumping to it, keeps the timeline and
    makes the entry's snapshot the current one. *)
Theorem redoTo_future_time_slice state ts :
  invariant state ->
  ts ∈ _getFuture state ->
  index state < TimeSlice.index ts < Z.of_nat (length (timeline state))
  /\ _redoTo state (TimeSlice.index ts)
     = {| timeline := timeline state; index := TimeSlice.index ts |}
  /\ _jumpTo state (TimeSlice.index ts) = _redoTo state (TimeSlice.index ts)
  /\ _getCurrentTimeSlice (_redoTo state (TimeSlice.index ts))
     = TimeSlice.timeSlice ts.
Proof.
  intros Hinv Hin. apply list_elem_of_lookup_1 in Hin as [j Hj].
  destruct (_getFuture_lookup state j ts Hinv Hj) as (Hpos & Hx).
  destruct Hinv as [_ Hindex].
  pose proof (lookup_lt_Some _ _ _ Hx) as Hlt.
  assert (index state < TimeSlice.index ts
          < Z.of_nat (length (timeline state))) as Hrange by lia.
  rewrite _redoTo_valid by lia. rewrite _jumpTo_valid by lia.
  split; [assumption|]. split; [reflexivity|]. split; [reflexivity|].
  unfold _getCurrentTimeSlice. simpl. apply get_lookup; [lia|assumption].
Qed.

End Views.

(** ** Undo and redo as the hook offers them *)

Section UndoRedo.
Context {T : Type} `{!Js.Value T}.
Implicit Types (state : UndoableState T) (to : Z).

Lemma canUndo_true state : canUndo state = true <-> 0 < index state.
Proof. unfold canUndo. rewrite _canUndoTo_true. lia. Qed.

Lemma canRedo_true state :
  canRedo state = true <-> index state + 1 < Z.of_nat (length (timeline state)).
Proof. unfold canRedo. rewrite _canRedoTo_true. lia. Qed.

Lemma undo_canUndo state :
  canUndo state = true ->
  undo state = {| timeline := timeline state; index := index state - 1 |}.
Proof.
  intros Hcan. apply canUndo_true in Hcan.
  unfold undo. apply _undoTo_valid; lia.
Qed.

Lemma redo_canRedo state :
  canRedo state = true ->
  redo state = {| timeline := timeline state; index := index state + 1 |}.
Proof.
  intros Hcan. apply canRedo_true in Hcan.
  unfold redo. apply _redoTo_valid; lia.
Qed.

(** X4. For every state, [canUndo] is true exactly when the cursor is
    positive; [undo] then moves the cursor one step back on the same
    timeline, and otherwise returns the state unchanged. *)
Theorem undo_acts_iff_canUndo state :
  (canUndo state = true <-> 0 < index state)
  /\ (canUndo state = true ->
      undo state = {| timeline := timeline state; index := index state - 1 |})
  /\ (canUndo state = false -> undo state = state).
Proof.
  split; [apply canUndo_true|]. split; [apply undo_canUndo|].
  intros Hcannot. unfold undo. apply _undoTo_invalid.
  intros Hyes. apply _canUndoTo_true in Hyes.
  unfold canUndo in Hcannot. congruence.
Qed.

(** X5. For every state, [canRedo] is true exactly when an element
    follows the cursor; [redo] then moves the cursor one step forward on
    the same timeline, and otherwise returns the state unchanged. *)
Theorem redo_acts_iff_canRedo state :
  (canRedo state = true
   <-> index state + 1 < Z.of_nat (length (timeline state)))
  /\ (canRedo state = true ->
      redo state = {| timeline := timeline state; index := index state + 1 |})
  /\ (canRedo state = false -> redo state = state).
Proof.
  split; [apply canRedo_true|]. split; [apply redo_canRedo|].
  intros Hcannot. unfold redo. apply _redoTo_invalid.
  intros Hyes. apply _canRedoTo_true in Hyes.
  unfold canRedo in Hcannot. congruence.
Qed.

(** X6. For a state that satisfies the invariants, [canUndo] is false
    exactly when the cursor is 0, which is when the past is empty, and
    [canRedo] is false exactly when the cursor is on the last element,
    which is when the future is empty. *)
Theorem canUndo_canRedo_views state :
  invariant state ->
  (canUndo state = false <-> index state = 0)
  /\ (canUndo state = false <-> _getPast state = [])
  /\ (canRedo state = false
      <-> index state = Z.of_nat (length (timeline state)) - 1)
  /\ (canRedo state = false <-> _getFuture state = []).
Proof.
  intros Hinv.
  destruct (past_current_future_partition_lengths state Hinv) as [Hpast Hfuture].
  destruct Hinv as [_ Hindex].
  pose proof (canUndo_true state) as Hundo.
  pose proof (canRedo_true state) as Hredo.
  assert (forall A (l : list A), l = [] <-> length l = 0%nat) as Hnil
    by (intros A l; destruct l; simpl; split; congruence).
  rewrite !Hnil.
  destruct (canUndo state), (canRedo state);
    repeat split; intros; try congruence; try lia;
    exfalso; intuition lia.
Qed.

Lemma redo_undo state :
  invariant state -> canUndo state = true -> redo (undo state) = state.
Proof.
  intros [_ Hindex] Hcan.
  rewrite undo_canUndo by assumption. apply canUndo_true in Hcan.
  unfold redo. rewrite _redoTo_valid by (simpl; lia). simpl.
  destruct state as [tl i]. simpl. f_equal. lia.
Qed.

Lemma undo_redo state :
  invariant state -> canRedo state = true -> undo (redo state) = state.
Proof.
  intros [_ Hindex] Hcan.
  rewrite redo_canRedo by assumption. apply canRedo_true in Hcan.
  unfold undo. rewrite _undoTo_valid by (simpl; lia). simpl.
  destruct state as [tl i]. simpl. f_equal. lia.
Qed.

(** X7. For a state that satisfies the invariants, a redo after an undo
    that was available gives back the state, and so does an undo after a
    redo that was available. *)
Theorem redo_undo_cancel state :
  invariant state ->
  (canUndo state = true -> redo (undo state) = state)
  /\ (canRedo state = true -> undo (redo state) = state).
Proof.
  intros Hinv. split; intros Hcan.
  - apply redo_undo; assumption.
  - apply undo_redo; assumption.
Qed.

(** X8. For every state and every target, [_redoTo] returns the same
    timeline with the cursor at the target when the target is below the
    length of the timeline and above the cursor, and the input state in
    every other case; its result differs from its input exactly in the
    first case. *)
Theorem redoTo_moves_cursor_or_is_noop state to :
  (to < Z.of_nat (length (timeline state)) /\ to > index state ->
     _redoTo state to = {| timeline := timeline state; index := to |})
  /\ (~ (to < Z.of_nat (length (timeline state)) /\ to > index state) ->
      _redoTo state to = state)
  /\ (_redoTo state to <> state
      <-> to < Z.of_nat (length (timeline state)) /\ to > index state).
Proof.
  split; [|split].
  - intros [Hlen Hto]. apply _redoTo_valid; assumption.
  - apply _redoTo_invalid.
  - split.
    + intros Hmoved.
      destruct (_canRedoTo state to) eqn:Hcan.
      * apply _canRedoTo_true. assumption.
      * exfalso. apply Hmoved. apply _redoTo_invalid.
        intros Hyes. apply _canRedoTo_true in Hyes. congruence.
    + intros [Hlen Hto] Hsame.
      rewrite _redoTo_valid in Hsame by assumption.
      apply (f_equal index) in Hsame. simpl in Hsame. lia.
Qed.

Lemma perform_cursorMove_timeline state (op : operation T) :
  cursorMove op -> timeline (perform state op) = timeline state.
Proof.
  destruct op as [value cap|to|to|to|]; simpl; intros Hmove;
    try contradiction.
  - unfold _undoTo. destruct (negb _); reflexivity.
  - unfold _redoTo. destruct (negb _); reflexivity.
  - unfold _jumpTo. destruct (_ || _); reflexivity.
Qed.

(** X9. Whatever the state and the targets, a sequence of undoTo, redoTo
    and jumpTo calls leaves the timeline as it was: only the cursor can
    change. *)
Theorem cursor_moves_keep_timeline state (ops : list (operation T)) :
  Forall cursorMove ops -> timeline (run state ops) = timeline state.
Proof.
  intros Hops. revert state.
  induction Hops as [|op ops Hop _ IH]; intros state; [reflexivity|].
  change (run state (op :: ops)) with (run (perform state op) ops).
  rewrite IH. apply perform_cursorMove_timeline. assumption.
Qed.

(** X10. A jump to a position inside the timeline gives the same state
    whatever jump was made before it, valid or not. *)
Theorem jumpTo_last_wins state (first to : Z) :
  0 <= to < Z.of_nat (length (timeline state)) ->
  _jumpTo (_jumpTo state first) to
  = {| timeline := timeline state; index := to |}.
Proof.
  intros Hto.
  assert (timeline (_jumpTo state first) = timeline state) as Htimeline
    by (unfold _jumpTo; destruct (_ || _); reflexivity).
  rewrite _jumpTo_valid by (rewrite Htimeline; lia).
  rewrite Htimeline. reflexivity.
Qed.

End UndoRedo.

(** ** What an insertion keeps *)

Section Kept.
Context {T : Type} `{!Js.Value T}.
Implicit Types (state : UndoableState T) (timeSlice : T).

(** After an insertion the inserted value is the current one, whatever
    the cap is. *)
Lemma _insert_current state timeSlice maxTimelineSize :
  invariant state ->
  _getCurrentTimeSlice (_insert state timeSlice maxTimelineSize) = timeSlice.
Proof.
  intros Hinv.
  pose proof (_insert_index_last state timeSlice maxTimelineSize Hinv) as Hlast.
  cbv zeta in Hlast. unfold _getCurrentTimeSlice.
  rewrite _insert_timeline in * by assumption.
  rewrite length_app in Hlast. cbn [length] in Hlast.
  match goal with
  | |- Js.get (?past ++ _) ?i = _ =>
      replace i with (Z.of_nat (length past)) by lia
  end.
  apply get_last.
Qed.

Lemma _insert_future state timeSlice maxTimelineSize :
  invariant state ->
  _getFuture (_insert state timeSlice maxTimelineSize) = [].
Proof.
  intros Hinv.
  pose proof (_insert_index_last state timeSlice maxTimelineSize Hinv) as Hlast.
  cbv zeta in Hlast. unfold _getFuture.
  rewrite slice_empty; [reflexivity|lia].
Qed.

(** X11. For a state that satisfies the invariants and whose cursor is
    not at the cap, an insertion keeps every entry up to the cursor, drops
    the entries after it, appends the value and moves the cursor one step
    forward, onto the value. *)
Theorem _insert_below_cap state timeSlice (cap : Z) :
  invariant state ->
  index state <> cap ->
  _insert state timeSlice (Some cap)
  = {| timeline := take (S (Z.to_nat (index state))) (timeline state)
                   ++ [timeSlice];
       index := index state + 1 |}.
Proof.
  intros [_ Hindex] Hcap. unfold _insert, _newState.
  change (default 5 (Some cap)) with cap. cbv zeta.
  apply Z.eqb_neq in Hcap. rewrite Hcap.
  rewrite slice_from_0 by lia.
  replace (Z.to_nat (index state + 1)) with (S (Z.to_nat (index state)))
    by lia.
  reflexivity.
Qed.

(** X13. For a state that satisfies the invariants and a positive cap,
    an undo is available after an insertion, it brings back as the current
    value the one that was current before the insertion, and a redo after
    it gives the state of the insertion again. *)
Theorem undo_after_insert state timeSlice (cap : Z) :
  invariant state ->
  0 < cap ->
  let state' := _insert state timeSlice (Some cap) in
  canUndo state' = true
  /\ _getCurrentTimeSlice (undo state') = _getCurrentTimeSlice state
  /\ redo (undo state') = state'.
Proof.
  intros Hinv Hcap state'. subst state'.
  pose proof (_insert_invariant state timeSlice (Some cap) Hinv) as Hinv'.
  pose proof (_insert_timeline state timeSlice (Some cap) Hinv) as Htimeline.
  pose proof (_getCurrentTimeSlice_lookup state Hinv) as Hcurrent.
  change (default 5 (Some cap)) with cap in Htimeline.
  assert (index (_insert state timeSlice (Some cap))
          = if index state =? cap then index state else index state + 1)
    as Hindex' by reflexivity.
  destruct Hinv as [_ Hindex].
  set (state' := _insert state timeSlice (Some cap)) in *. clearbody state'.
  assert (canUndo state' = true) as Hcan.
  { apply canUndo_true. rewrite Hindex'.
    destruct (Z.eqb_spec (index state) cap); lia. }
  split; [assumption|]. split; [|apply redo_undo; assumption].
  rewrite undo_canUndo by assumption.
  unfold _getCurrentTimeSlice at 1. cbn [timeline index].
  apply get_lookup; [apply canUndo_true in Hcan; lia|].
  rewrite Htimeline, Hindex'.
  destruct (Z.eqb_spec (index state) cap) as [Heq|Hne]; cbv iota.
  - rewrite lookup_app_l by (rewrite length_drop, length_take; lia).
    rewrite lookup_drop.
    replace (1 + Z.to_nat (index state - 1))%nat
      with (Z.to_nat (index state)) by lia.
    rewrite lookup_take_lt by lia. assumption.
  - rewrite drop_0.
    replace (Z.to_nat (index state + 1 - 1)) with (Z.to_nat (index state))
      by lia.
    rewrite lookup_app_l by (rewrite length_take; lia).
    rewrite lookup_take_lt by lia. assumption.
Qed.

(** X12. For a state that satisfies the invariants and whose cursor is at
    the cap, an insertion drops the oldest entry and the entries after the
    cursor, keeps the others in order, appends the value and leaves the
    cursor where it was, now on the value: the timeline has cap + 1
    entries. *)
Theorem insert_at_cap_evicts_oldest state timeSlice (cap : Z) :
  invariant state ->
  index state = cap ->
  _insert state timeSlice (Some cap)
  = {| timeline := drop 1 (take (S (Z.to_nat cap)) (timeline state))
                   ++ [timeSlice];
       index := cap |}
  /\ Z.of_nat (length (timeline (_insert state timeSlice (Some cap))))
     = cap + 1.
Proof.
  intros Hinv Hcap.
  pose proof (_insert_index_last state timeSlice (Some cap) Hinv) as Hlast.
  cbv zeta in Hlast. destruct Hinv as [_ Hindex].
  assert (_insert state timeSlice (Some cap)
          = {| timeline := drop 1 (take (S (Z.to_nat cap)) (timeline state))
                           ++ [timeSlice];
               index := cap |}) as Hinsert.
  { unfold _insert, _newState. change (default 5 (Some cap)) with cap.
    cbv zeta. rewrite Hcap, Z.eqb_refl.
    rewrite slice_from_1 by lia.
    replace (Z.to_nat (cap + 1)) with (S (Z.to_nat cap)) by lia.
    reflexivity. }
  split; [assumption|]. rewrite Hlast, Hinsert. reflexivity.
Qed.

End Kept.

(** ** A component's session with the hook *)

Section Session.
Context {T : Type} `{!Js.Value T}.
Implicit Types (s : UndoableState T) (options : option Options).

Lemma setState_insert options (arg : T) s :
  setState options arg s
  = _insert s (inserted arg s) (Some (effectiveMaxTimelineSize options)).
Proof.
  unfold setState, inserted. destruct (isFunction arg); reflexivity.
Qed.

(** X14. For a state that satisfies the invariants, under any options and
    for any argument, after [setState] the current value is the argument
    (or what it returns on the previous current value, when it is a
    function), the cursor is on the last element, the future is empty and
    [canRedo] is false. *)
Theorem setState_result options (arg : T) s :
  invariant s ->
  let s' := setState options arg s in
  _getCurrentTimeSlice s' = inserted arg s
  /\ index s' = Z.of_nat (length (timeline s')) - 1
  /\ _getFuture s' = []
  /\ canRedo s' = false.
Proof.
  intros Hinv s'. subst s'. rewrite setState_insert.
  pose proof (_insert_index_last s (inserted arg s)
                (Some (effectiveMaxTimelineSize options)) Hinv) as Hlast.
  cbv zeta in Hlast.
  split; [apply _insert_current; assumption|].
  split; [lia|]. split; [apply _insert_future; assumption|].
  apply not_true_is_false. rewrite canRedo_true. lia.
Qed.

(** X15. Under any options [setState] is an insertion with one cap: 20
    when there is no options object or it has no [maxTimelineSize]
    property, 5 when the property is there and [undefined], and the
    number given otherwise. *)
Theorem setState_effective_maxTimelineSize options (arg : T) s :
  setState options arg s
  = _insert s (inserted arg s) (Some (effectiveMaxTimelineSize options))
  /\ effectiveMaxTimelineSize options
     = match options with
       | None => 20
       | Some o =>
           match maxTimelineSize o with
           | None => 20
           | Some None => 5
           | Some (Some cap) => cap
           end
       end.
Proof.
  split; [apply setState_insert|].
  destruct options as [[[[cap|]|]]|]; reflexivity.
Qed.

Lemma dispatch_invariant options s (a : action T) :
  invariant s -> invariant (dispatch options s a).
Proof.
  intros Hinv.
  destruct (updaters_invariant s Hinv) as (Hset & Hundo & Hredo & Hjump & Hclear).
  destruct a; simpl; auto.
Qed.

Lemma dispatch_all_invariant options s (actions : list (action T)) :
  invariant s -> invariant (foldl (dispatch options) s actions).
Proof.
  revert s.
  induction actions as [|a actions IH]; intros s Hinv; [assumption|].
  simpl. apply IH. apply dispatch_invariant. assumption.
Qed.

Lemma useTimeline_renders_same_options (initialValue : T) options
      (actions : list (action T)) :
  useTimeline_renders initialValue (pair options <$> actions)
  = useTimeline_state initialValue options actions.
Proof.
  unfold useTimeline_renders, useTimeline_state.
  generalize (_initState initialValue) as s.
  induction actions as [|a actions IH]; intros s; [reflexivity|].
  simpl. apply IH.
Qed.

(** X16. Whatever the initial value, whatever the options of each render
    and whatever the calls made, with any argument for [setState] and any
    integer index for [jumpTo], the state the hook stores has a timeline
    that is not empty and a cursor inside it: no sequence of [setState],
    [undo], [redo], [jumpTo] and [clearTimeline] calls breaks the
    invariants. *)
Theorem useTimeline_renders_invariant (initialValue : T)
        (calls : list (option Options * action T)) :
  invariant (useTimeline_renders initialValue calls).
Proof.
  unfold useTimeline_renders.
  generalize (_initState_invariant initialValue).
  generalize (_initState initialValue) as s.
  induction calls as [|[options a] calls IH]; intros s Hinv; [assumption|].
  simpl. apply IH. apply dispatch_invariant. assumption.
Qed.







(** X19. On the first render, whatever the options, when the initial
    value is one that [isFunction] rejects (so that [_initState] calls
    nothing), the hook shows the initial value as the state, empty past
    and future timelines, and neither undo nor redo available. *)
Theorem useTimeline_first_render (initialValue : T) options :
  isFunction initialValue = false ->
  _initState initialValue = initialize_spec initialValue
  /\ useTimeline_instance (useTimeline_state initialValue options [])
     = TimelineInstance.make
         initialValue {| timeline := [initialValue]; index := 0 |}
         [] [] false false.
Proof.
  intros Hvalue. split; [|reflexivity].
  unfold initialize_spec. rewrite Hvalue. reflexivity.
Qed.

(** X20. After [clearTimeline], from any state, the hook shows the value
    that was current as the state, on a timeline of that one entry, with
    empty past and future timelines and neither undo nor redo
    available. *)
Theorem clearTimeline_instance s :
  useTimeline_instance (clearTimeline s)
  = TimelineInstance.make
      (_getCurrentTimeSlice s)
      {| timeline := [_getCurrentTimeSlice s]; index := 0 |}
      [] [] false false.
Proof. reflexivity. Qed.

End Session.

(** ** The further properties on concrete inputs *)

Section ConcreteViews.
Import Sample.

(** Closes the invariants of a state given by its entries. *)
Ltac concrete_invariant := split; [discriminate|simpl; lia].

Lemma past_current_future_partition_witness :
  let s := {| timeline := [num 0; num 1; num 2; num 3]; index := 1 |} in
  invariant s
  /\ timeSlices (_getPast s) ++ [_getCurrentTimeSlice s]
       ++ timeSlices (_getFuture s)
     = timeline s
  /\ Z.of_nat (length (_getPast s)) = index s
  /\ Z.of_nat (length (_getFuture s))
     = Z.of_nat (length (timeline s)) - 1 - index s.
Proof.
  cbv zeta. split; [concrete_invariant|].
  apply (past_current_future_partition
           {| timeline := [num 0; num 1; num 2; num 3]; index := 1 |}).
  concrete_invariant.
Defined.

Lemma undoTo_past_time_slice_witness :
  let s := {| timeline := [num 0; num 1; num 2; num 3]; index := 2 |} in
  let ts := TimeSlice.make (num 1) 1 in
  invariant s /\ ts ∈ _getPast s
  /\ 0 <= TimeSlice.index ts < index s
  /\ _undoTo s (TimeSlice.index ts)
     = {| timeline := timeline s; index := TimeSlice.index ts |}
  /\ _jumpTo s (TimeSlice.index ts) = _undoTo s (TimeSlice.index ts)
  /\ _getCurrentTimeSlice (_undoTo s (TimeSlice.index ts))
     = TimeSlice.timeSlice ts.
Proof.
  cbv zeta.
  assert (TimeSlice.make (num 1) 1
          ∈ _getPast {| timeline := [num 0; num 1; num 2; num 3]; index := 2 |})
    as Hin by (vm_compute; repeat constructor).
  split; [concrete_invariant|]. split; [exact Hin|].
  apply (undoTo_past_time_slice
           {| timeline := [num 0; num 1; num 2; num 3]; index := 2 |}
           (TimeSlice.make (num 1) 1)); [concrete_invariant|exact Hin].
Defined.

Lemma redoTo_future_time_slice_witness :
  let s := {| timeline := [num 0; num 1; num 2; num 3]; index := 1 |} in
  let ts := TimeSlice.make (num 3) 3 in
  invariant s /\ ts ∈ _getFuture s
  /\ index s < TimeSlice.index ts < Z.of_nat (length (timeline s))
  /\ _redoTo s (TimeSlice.index ts)
     = {| timeline := timeline s; index := TimeSlice.index ts |}
  /\ _jumpTo s (TimeSlice.index ts) = _redoTo s (TimeSlice.index ts)
  /\ _getCurrentTimeSlice (_redoTo s (TimeSlice.index ts))
     = TimeSlice.timeSlice ts.
Proof.
  cbv zeta.
  assert (TimeSlice.make (num 3) 3
          ∈ _getFuture {| timeline := [num 0; num 1; num 2; num 3]; index := 1 |})
    as Hin by (vm_compute; repeat constructor).
  split; [concrete_invariant|]. split; [exact Hin|].
  apply (redoTo_future_time_slice
           {| timeline := [num 0; num 1; num 2; num 3]; index := 1 |}
           (TimeSlice.make (num 3) 3)); [concrete_invariant|exact Hin].
Defined.

Lemma canUndo_canRedo_views_witness :
  let s := {| timeline := [num 0; num 1; num 2]; index := 2 |} in
  invariant s
  /\ (canUndo s = false <-> index s = 0)
  /\ (canUndo s = false <-> _getPast s = [])
  /\ (canRedo s = false <-> index s = Z.of_nat (length (timeline s)) - 1)
  /\ (canRedo s = false <-> _getFuture s = []).
Proof.
  cbv zeta. split; [concrete_invariant|].
  apply (canUndo_canRedo_views
           {| timeline := [num 0; num 1; num 2]; index := 2 |}).
  concrete_invariant.
Defined.

Lemma redo_undo_cancel_witness :
  let s := {| timeline := [num 0; num 1; num 2]; index := 1 |} in
  invariant s
  /\ (canUndo s = true -> redo (undo s) = s)
  /\ (canRedo s = true -> undo (redo s) = s).
Proof.
  cbv zeta. split; [concrete_invariant|].
  apply (redo_undo_cancel {| timeline := [num 0; num 1; num 2]; index := 1 |}).
  concrete_invariant.
Defined.

Lemma cursor_moves_keep_timeline_witness :
  let s := {| timeline := [num 0; num 1; num 2]; index := 1 |} in
  let ops := [UndoTo (-4); JumpTo 2; RedoTo 9; UndoTo 0; JumpTo 3] in
  Forall cursorMove ops /\ timeline (run s ops) = timeline s.
Proof.
  cbv zeta. split; [repeat constructor|].
  apply (cursor_moves_keep_timeline
           {| timeline := [num 0; num 1; num 2]; index := 1 |}).
  repeat constructor.
Defined.

Lemma jumpTo_last_wins_witness :
  let s := {| timeline := [num 0; num 1; num 2]; index := 1 |} in
  0 <= 2 < Z.of_nat (length (timeline s))
  /\ _jumpTo (_jumpTo s 7) 2 = {| timeline := timeline s; index := 2 |}.
Proof.
  cbv zeta. split; [simpl; lia|].
  apply (jumpTo_last_wins {| timeline := [num 0; num 1; num 2]; index := 1 |}).
  simpl. lia.
Defined.

Lemma _insert_below_cap_witness :
  let s := {| timeline := [num 0; num 1; num 2]; index := 1 |} in
  invariant s /\ index s <> 5
  /\ _insert s (num 9) (Some 5)
     = {| timeline := take (S (Z.to_nat (index s))) (timeline s) ++ [num 9];
          index := index s + 1 |}.
Proof.
  cbv zeta. split; [concrete_invariant|]. split; [simpl; lia|].
  apply (_insert_below_cap
           {| timeline := [num 0; num 1; num 2]; index := 1 |} (num 9) 5).
  - concrete_invariant.
  - simpl. lia.
Defined.

Lemma insert_at_cap_evicts_oldest_witness :
  let s := {| timeline := [num 0; num 1; num 2; num 3]; index := 2 |} in
  invariant s /\ index s = 2
  /\ _insert s (num 9) (Some 2)
     = {| timeline := drop 1 (take (S (Z.to_nat 2)) (timeline s)) ++ [num 9];
          index := 2 |}
  /\ Z.of_nat (length (timeline (_insert s (num 9) (Some 2)))) = 2 + 1.
Proof.
  cbv zeta. split; [concrete_invariant|]. split; [reflexivity|].
  apply (insert_at_cap_evicts_oldest
           {| timeline := [num 0; num 1; num 2; num 3]; index := 2 |}
           (num 9) 2).
  - concrete_invariant.
  - reflexivity.
Defined.

Lemma undo_after_insert_witness :
  let s := {| timeline := [num 0; num 1; num 2]; index := 2 |} in
  let s' := _insert s (num 9) (Some 2) in
  invariant s /\ 0 < 2
  /\ canUndo s' = true
  /\ _getCurrentTimeSlice (undo s') = _getCurrentTimeSlice s
  /\ redo (undo s') = s'.
Proof.
  cbv zeta. split; [concrete_invariant|]. split; [lia|].
  apply (undo_after_insert
           {| timeline := [num 0; num 1; num 2]; index := 2 |} (num 9) 2).
  - concrete_invariant.
  - lia.
Defined.

Lemma setState_result_witness :
  let s := {| timeline := [num 0; num 1; num 2]; index := 1 |} in
  let s' := setState (Some {| maxTimelineSize := Some None |}) succ s in
  invariant s
  /\ _getCurrentTimeSlice s' = inserted succ s
  /\ index s' = Z.of_nat (length (timeline s')) - 1
  /\ _getFuture s' = []
  /\ canRedo s' = false.
Proof.
  cbv zeta. split; [concrete_invariant|].
  apply (setState_result
           (Some {| maxTimelineSize := Some None |}) succ
           {| timeline := [num 0; num 1; num 2]; index := 1 |}).
  concrete_invariant.
Defined.


Lemma useTimeline_first_render_witness :
  isFunction (num 0) = false
  /\ _initState (num 0) = initialize_spec (num 0)
  /\ useTimeline_instance (useTimeline_state (num 0) None [])
     = TimelineInstance.make
         (num 0) {| timeline := [num 0]; index := 0 |} [] [] false false.
Proof.
  split; [reflexivity|].
  apply (useTimeline_first_render (num 0) None). reflexivity.
Defined.

(** The bound needs the same cap on every render: when a later render
    lowers the cap below the cursor, the cursor no longer meets it and
    nothing is evicted. *)
Example lowered_cap_stops_eviction :
  let high := Some {| maxTimelineSize := Some (Some 3) |} in
  let low := Some {| maxTimelineSize := Some (Some 1) |} in
  useTimeline_renders (num 0)
    [(high, DoSetState (num 1)); (high, DoSetState (num 2));
     (high, DoSetState (num 3)); (low, DoSetState (num 4));
     (low, DoSetState (num 5))]
  = {| timeline := [num 0; num 1; num 2; num 3; num 4; num 5]; index := 5 |}.
Proof. reflexivity. Qed.

(** C4. With an options object whose [maxTimelineSize] is present and
    [undefined], the hook's default of 20 is overridden by [undefined] and
    [_insert] falls back on its own default parameter, 5: from a cursor at
    5, [setState] evicts the oldest entry, where an insertion with the cap
    20 keeps all seven. *)
Theorem setState_undefined_maxTimelineSize_evicts_at_5 :
  let options := Some {| maxTimelineSize := Some None |} in
  let s := {| timeline := [num 0; num 1; num 2; num 3; num 4; num 5];
              index := 5 |} in
  useTimeline_maxTimelineSize options = None
  /\ setState options (num 6) s
     = {| timeline := [num 1; num 2; num 3; num 4; num 5; num 6]; index := 5 |}
  /\ _insert s (num 6) (Some 20)
     = {| timeline := [num 0; num 1; num 2; num 3; num 4; num 5; num 6];
          index := 6 |}
  /\ setState options (num 6) s <> _insert s (num 6) (Some 20).
Proof.
  cbv zeta. split; [reflexivity|]. split; [reflexivity|].
  split; [reflexivity|]. intros Heq.
  apply (f_equal index) in Heq. vm_compute in Heq. discriminate Heq.
Qed.


(** The session of the last witness, entry by entry. *)
Example setState_sequence_cap_2 :
  useTimeline_state (num 0) (Some {| maxTimelineSize := Some (Some 2) |})
    (DoSetState <$> [num 1; num 2; num 3; num 4; num 5])
  = {| timeline := [num 3; num 4; num 5]; index := 2 |}.
Proof. reflexivity. Qed.

(** With the cap 0 the timeline keeps one entry and undo is never
    available. *)
Example setState_cap_0 :
  useTimeline_instance
    (useTimeline_state (num 0) (Some {| maxTimelineSize := Some (Some 0) |})
       [DoSetState (num 1); DoSetState (num 2)])
  = TimelineInstance.make (num 2) {| timeline := [num 2]; index := 0 |}
      [] [] false false.
Proof. reflexivity. Qed.

End ConcreteViews.

(** ** A negative cap *)

Section NegativeCap.
Context {T : Type} `{!Js.Value T}.

Lemma setState_sequence_index_negative (options : option Options)
      (args : list T) (s : UndoableState T) :
  effectiveMaxTimelineSize options < 0 ->
  0 <= index s ->
  index (foldl (dispatch options) s (DoSetState <$> args))
  = index s + Z.of_nat (length args).
Proof.
  intros Hcap. revert s.
  induction args as [|arg args IH]; intros s Hindex; simpl; [lia|].
  assert (index (setState options arg s) = index s + 1) as Hstep.
  { rewrite setState_insert. unfold _insert, _newState.
    change (default 5 (Some (effectiveMaxTimelineSize options)))
      with (effectiveMaxTimelineSize options).
    cbn [index].
    destruct (Z.eqb_spec (index s) (effectiveMaxTimelineSize options)); lia. }
  rewrite IH by lia. lia.
Qed.

(** X21. When the cap in force is negative nothing is ever evicted: [n]
    calls of [setState] after the mount leave the cursor at [n], on the
    last of [n + 1] entries. *)
Theorem setState_sequence_negative_cap (initialValue : T)
        (options : option Options) (args : list T) :
  effectiveMaxTimelineSize options < 0 ->
  let s := useTimeline_state initialValue options (DoSetState <$> args) in
  index s = Z.of_nat (length args)
  /\ Z.of_nat (length (timeline s)) = Z.of_nat (length args) + 1.
Proof.
  intros Hcap s. subst s.
  assert (index (useTimeline_state initialValue options (DoSetState <$> args))
          = Z.of_nat (length args)) as Hindex.
  { unfold useTimeline_state.
    rewrite setState_sequence_index_negative by (simpl; lia). simpl. lia. }
  split; [assumption|]. rewrite <- Hindex. clear Hindex.
  destruct args as [|arg args _] using rev_ind; [reflexivity|].
  unfold useTimeline_state. rewrite fmap_app, foldl_app. simpl.
  rewrite setState_insert. apply _insert_index_last.
  apply dispatch_all_invariant. apply _initState_invariant.
Qed.

End NegativeCap.

Lemma setState_sequence_negative_cap_witness :
  let options := Some {| maxTimelineSize := Some (Some (-1)) |} in
  let args := [Sample.num 1; Sample.num 2; Sample.num 3] in
  let s := useTimeline_state (Sample.num 0) options (DoSetState <$> args) in
  effectiveMaxTimelineSize options < 0
  /\ index s = Z.of_nat (length args)
  /\ Z.of_nat (length (timeline s)) = Z.of_nat (length args) + 1.
Proof.
  cbv zeta. split; [change (-1 < 0); lia|].
  apply (setState_sequence_negative_cap (Sample.num 0)
           (Some {| maxTimelineSize := Some (Some (-1)) |})
           [Sample.num 1; Sample.num 2; Sample.num 3]).
  change (-1 < 0). lia.
Defined.
